(** * pkg/errors: RemediationError

    A shallow embedding of [pkg/errors/remediation_error.go] and of the
    library calls it makes, followed by the properties of its three
    methods [Unwrap], [Error] and [Print].

    Go strings are byte sequences; they are modelled by [string], whose
    characters are the 256 values of [ascii].  The [io.Writer] handed to
    [Print] is modelled by the bytes it has received so far. *)

From Stdlib Require Import String Ascii List Bool Arith Lia.
Import ListNotations.

Local Open Scope list_scope.
Local Open Scope string_scope.

(** ** Bytes and strings *)

Module bytes.

(** The line-break bytes: '\n' is 10 and '\r' is 13. *)
Definition LF : ascii := ascii_of_nat 10.
Definition CR : ascii := ascii_of_nat 13.
Definition SP : ascii := ascii_of_nat 32.
Definition TAB : ascii := ascii_of_nat 9.

Definition str (c : ascii) : string := String c EmptyString.

(** The string literals "\n" and "\r\n". *)
Definition nl : string := str LF.
Definition crnl : string := String CR (String LF EmptyString).

(** [len(s) == 0], the test behind [s != ""]. *)
Definition is_empty (s : string) : bool :=
  match s with
  | EmptyString => true
  | String _ _ => false
  end.

(** Every byte of [s] satisfies [p]. *)
Fixpoint all_bytes (p : ascii -> bool) (s : string) : bool :=
  match s with
  | EmptyString => true
  | String c s' => p c && all_bytes p s'
  end.

(** The last byte of [s], when it has one. *)
Fixpoint last_byte (s : string) : option ascii :=
  match s with
  | EmptyString => None
  | String c s' =>
      match s' with
      | EmptyString => Some c
      | String _ _ => last_byte s'
      end
  end.

End bytes.
Import bytes.

(** ** package strings *)

Module strings.

(** [asciiSet.contains]: membership of a byte in an all-ASCII cutset. *)
Fixpoint contains (cutset : string) (c : ascii) : bool :=
  match cutset with
  | EmptyString => false
  | String d cutset' => Ascii.eqb d c || contains cutset' c
  end.

(** The loop of [trimRightASCII], run on the bytes of [s] taken from the
    last one backwards: while the byte at hand is in the cutset it is
    dropped, and the first byte outside the cutset ends the loop. *)
Fixpoint trimRightASCII (rev_s : list ascii) (cutset : string) : list ascii :=
  match rev_s with
  | [] => []
  | c :: rest => if contains cutset c then trimRightASCII rest cutset else rev_s
  end.

(** [strings.TrimRight(s, cutset)] for a cutset of ASCII bytes, which is
    the path Go takes for the cutset "\r\n". *)
Definition TrimRight (s cutset : string) : string :=
  string_of_list_ascii
    (rev (trimRightASCII (rev (list_ascii_of_string s)) cutset)).

End strings.

(** ** package fmt *)

Module fmt.

(** The operands [Print] passes are all strings, so an operand list is a
    [list string].  The model covers the plain verbs, written without
    flags, width, precision or argument index: [%%], [%s] and [%v] print
    as in Go, a verb that has no operand left prints [%!c(MISSING)], any
    other letter applied to a string prints Go's bad-verb form
    [%!c(string=...)], a lone [%] at the end prints [%!(NOVERB)], and
    operands left over are reported in [%!(EXTRA ...)].  The verbs [%q],
    [%x], [%X], [%T] and verbs that are not letters are outside the
    model; [plain] below recognises the formats inside it. *)

Definition percent : ascii := ascii_of_nat 37.

Definition is_string_verb (v : ascii) : bool :=
  Ascii.eqb v "s"%char || Ascii.eqb v "v"%char.

(** [printArg] at a string operand. *)
Definition printArg (arg : string) (verb : ascii) : string :=
  if is_string_verb verb then arg
  else "%!" ++ str verb ++ "(string=" ++ arg ++ ")".

Fixpoint extraArgs (args : list string) : string :=
  match args with
  | [] => ""
  | a :: rest =>
      match rest with
      | [] => "string=" ++ a
      | _ :: _ => "string=" ++ a ++ ", " ++ extraArgs rest
      end
  end.

(** The end of [doPrintf]: operands that no verb consumed. *)
Definition extra (args : list string) : string :=
  match args with
  | [] => ""
  | _ :: _ => "%!(EXTRA " ++ extraArgs args ++ ")"
  end.

Fixpoint doPrintf (format : string) (args : list string) : string :=
  match format with
  | EmptyString => extra args
  | String c rest =>
      if Ascii.eqb c percent then
        match rest with
        | EmptyString => "%!(NOVERB)" ++ extra args
        | String verb rest' =>
            if Ascii.eqb verb percent then String percent (doPrintf rest' args)
            else
              match args with
              | [] => "%!" ++ str verb ++ "(MISSING)" ++ doPrintf rest' []
              | a :: args' => printArg a verb ++ doPrintf rest' args'
              end
        end
      else String c (doPrintf rest args)
  end.

Definition Sprintf (format : string) (args : list string) : string :=
  doPrintf format args.

(** The verbs the model renders as Go does. *)
Definition modelled_verb (v : ascii) : bool :=
  let n := nat_of_ascii v in
  Ascii.eqb v percent
  || (((Nat.leb 65 n && Nat.leb n 90) || (Nat.leb 97 n && Nat.leb n 122))
      && negb (strings.contains "qxXT" v)).

Fixpoint plain (format : string) : bool :=
  match format with
  | EmptyString => true
  | String c rest =>
      if Ascii.eqb c percent then
        match rest with
        | EmptyString => true
        | String verb rest' => modelled_verb verb && plain rest'
        end
      else plain rest
  end.

(** A string without any [%]: as a format it is all literal text. *)
Definition literal (s : string) : bool :=
  all_bytes (fun c => negb (Ascii.eqb c percent)) s.

End fmt.

(** ** package io *)

Module io.

(** An [io.Writer] that accepts every write, as the [bytes.Buffer] of a
    test or a terminal stream does: its state is the bytes written to it
    so far, oldest first. *)
Definition Writer : Type := string.

Definition Write (w : Writer) (p : string) : Writer := w ++ p.

End io.

(** [fmt.Fprintf(w, format, args...)] formats into a buffer and hands it
    to [w] in one [Write].  Its results, the byte count and the writer's
    error, are dropped at each call site of this package. *)
Definition Fprintf (w : io.Writer) (format : string) (args : list string) : io.Writer :=
  io.Write w (fmt.Sprintf format args).

(** ** Running Go code: results and panics *)

(** A Go call either returns or panics.  The one panic within reach of
    this package is the call of a method on a nil interface value. *)
Inductive exec (A : Type) : Type :=
| Ret (a : A)
| Panic.

Arguments Ret {A} a.
Arguments Panic {A}.

Definition bind {A B : Type} (m : exec A) (k : A -> exec B) : exec B :=
  match m with
  | Ret a => k a
  | Panic => Panic
  end.

Notation "x <- m ;; k" := (bind m (fun x => k))
  (at level 61, m at next level, right associativity).

Definition returns {A : Type} (m : exec A) : Prop := exists a, m = Ret a.

(** The builtin interface [error]: a type [E] of non-nil error values
    with the method [Error() string].  Equality on [E] is the identity of
    the error value; two values may carry the same message. *)
Class error (E : Type) : Type := { errorMessage : E -> string }.

(** An interface value of type [error] is nil or holds a value. *)
Definition iface (E : Type) : Type := option E.

Definition is_nil {E : Type} (i : iface E) : bool :=
  match i with
  | None => true
  | Some _ => false
  end.

(** [i.Error()]: a nil [i] makes the call panic. *)
Definition call_Error {E : Type} `{error E} (i : iface E) : exec string :=
  match i with
  | None => Panic
  | Some e => Ret (errorMessage e)
  end.

(** Go's package errors: [errors.New(text)] returns a pointer to a fresh
    [errorString]; the pointer is the identity of the error. *)
Module goerrors.

Record errorString : Type := { addr : nat; s : string }.

Definition New (at_addr : nat) (text : string) : errorString :=
  {| addr := at_addr; s := text |}.

#[export] Instance errorString_error : error errorString :=
  {| errorMessage := s |}.

End goerrors.

(** ** package text *)

Module text.

(** The signature of [text.Error(w io.Writer, format string, args ...any)],
    seen as the writer it leaves behind. *)
Definition printer : Type := io.Writer -> string -> list string -> io.Writer.

(** Modelled from the spec: the function [text.Error] of [pkg/text],
    which [Print] calls and which is not among the sources.  The spec
    gives the block written by [text.Error(w, "%s.\n\n", message)] as
    "Error: <message>.\n\n": the writer receives "Error: " and then the
    format rendered with its operands, as [fmt.Fprintf] renders it. *)
Definition Error : printer :=
  fun w format args => Fprintf w ("Error: " ++ format) args.

End text.

(** ** package errors *)

Module errors.

Section RemediationError.

Context {E : Type} `{error E}.

(** [text.Error], the one callee of this file that belongs to another
    package of the repository.  The methods are defined for any function
    of its signature; [text.Error] above is the one the spec describes. *)
Variable text_Error : text.printer.

(** [RemediationError] wraps a normal error with a suggested remediation. *)
Record RemediationError : Type := {
  Prefix : string;
  Inner : iface E;
  Remediation : string
}.

(** [Unwrap] returns the inner error. *)
Definition Unwrap (re : RemediationError) : exec (iface E) :=
  Ret (Inner re).

(** [Error] prints the inner error string without any remediation. *)
Definition Error (re : RemediationError) : exec string :=
  if is_nil (Inner re) then Ret ""
  else call_Error (Inner re).

(** [Print] the error to the writer for human consumption. *)
Definition Print (re : RemediationError) (w : io.Writer) : exec io.Writer :=
  w <- (if negb (is_empty (Prefix re))
        then Ret (Fprintf w ("%s" ++ nl ++ nl) [strings.TrimRight (Prefix re) crnl])
        else Ret w) ;;
  w <- (if negb (is_nil (Inner re))
        then m <- call_Error (Inner re) ;;
             Ret (text_Error w ("%s." ++ nl ++ nl) [m])
        else Ret w) ;;
  w <- (if negb (is_empty (Remediation re))
        then Ret (Fprintf w ("%s" ++ nl) [strings.TrimRight (Remediation re) crnl])
        else Ret w) ;;
  Ret w.

(** *** Calls on a stored value

    The three methods have value receivers: a call copies the stored
    [RemediationError] into the method's frame and the frame is dropped
    when the method returns.  [world] is what a caller holds, and [invoke]
    runs one method call from it. *)

Inductive call : Type := CallUnwrap | CallError | CallPrint.

Inductive result : Type :=
| Unwrapped (i : iface E)
| Message (m : string)
| Printed.

Record world : Type := {
  stored : RemediationError;
  sink : io.Writer;
  results : list result
}.

Definition invoke (c : call) (st : world) : exec world :=
  let re := stored st in
  match c with
  | CallUnwrap =>
      i <- Unwrap re ;;
      Ret {| stored := stored st; sink := sink st;
             results := (results st ++ [Unwrapped i])%list |}
  | CallError =>
      m <- Error re ;;
      Ret {| stored := stored st; sink := sink st;
             results := (results st ++ [Message m])%list |}
  | CallPrint =>
      w <- Print re (sink st) ;;
      Ret {| stored := stored st; sink := w;
             results := (results st ++ [Printed])%list |}
  end.

Fixpoint run (cs : list call) (st : world) : exec world :=
  match cs with
  | [] => Ret st
  | c :: cs' => st' <- invoke c st ;; run cs' st'
  end.

End RemediationError.

Arguments RemediationError E : clear implicits.
Arguments world E : clear implicits.
Arguments result E : clear implicits.

End errors.

(** ** The rendering the documentation describes

    [Print] is compared below with this direct description of its output:
    three blocks, each a function of one field, and a trimming of line
    breaks defined on the text itself rather than by the loop of
    [strings.TrimRight]. *)

Module rendering.

Definition is_line_break (c : ascii) : bool :=
  Ascii.eqb c CR || Ascii.eqb c LF.

(** [s] without the line breaks at its end. *)
Fixpoint strip_line_breaks (s : string) : string :=
  match s with
  | EmptyString => EmptyString
  | String c s' =>
      match strip_line_breaks s' with
      | EmptyString => if is_line_break c then EmptyString else str c
      | String d t => String c (String d t)
      end
  end.

(** [t] is [s] with its trailing line breaks removed, and nothing else:
    what was cut is line breaks only, and [t] does not end in one. *)
Definition stripped (s t : string) : Prop :=
  (exists u, s = t ++ u /\ all_bytes is_line_break u = true)
  /\ forall c, last_byte t = Some c -> is_line_break c = false.

(** The prefix text with trailing line breaks trimmed, then a blank line. *)
Definition prefix_block (prefix : string) : string :=
  if is_empty prefix then "" else strip_line_breaks prefix ++ nl ++ nl.

(** "Error: <message>.", then a blank line. *)
Definition inner_block {E : Type} `{error E} (inner : iface E) : string :=
  match inner with
  | None => ""
  | Some e => "Error: " ++ errorMessage e ++ "." ++ nl ++ nl
  end.

(** The remediation text with trailing line breaks trimmed, then one
    line break. *)
Definition remediation_block (remediation : string) : string :=
  if is_empty remediation then "" else strip_line_breaks remediation ++ nl.

Definition render {E : Type} `{error E} (re : errors.RemediationError E) : string :=
  prefix_block (errors.Prefix re)
  ++ inner_block (errors.Inner re)
  ++ remediation_block (errors.Remediation re).

(** The writer after the inner error was handed to a printer [pr], which
    happens when there is one: the format is the constant "%s.\n\n" and
    the message is its one operand. *)
Definition inner_write {E : Type} `{error E}
    (pr : text.printer) (inner : iface E) (w : io.Writer) : io.Writer :=
  match inner with
  | None => w
  | Some e => pr w ("%s." ++ nl ++ nl) [errorMessage e]
  end.

End rendering.


(** ** More of package strings *)

Module stringslib.

(** The byte of the double quote, written with a backslash inside a Go
    literal. *)
Definition DQ : ascii := ascii_of_nat 34.

(** [strings.Join(elems, sep)]. *)
Fixpoint Join (elems : list string) (sep : string) : string :=
  match elems with
  | [] => ""
  | a :: rest =>
      match rest with
      | [] => a
      | _ :: _ => a ++ sep ++ Join rest sep
      end
  end.

(** [strings.HasPrefix(s, prefix)]. *)
Fixpoint HasPrefix (s prefix : string) : bool :=
  match prefix with
  | EmptyString => true
  | String p prefix' =>
      match s with
      | EmptyString => false
      | String c s' => Ascii.eqb c p && HasPrefix s' prefix'
      end
  end.

(** [strings.Index(s, substr)]: the position of the first place where
    [substr] starts in [s]; [None] stands for Go's -1. *)
Fixpoint Index (s substr : string) : option nat :=
  if HasPrefix s substr then Some 0
  else
    match s with
    | EmptyString => None
    | String _ s' =>
        match Index s' substr with
        | Some i => Some (S i)
        | None => None
        end
    end.

(** [strings.Contains(s, substr)] is [Index(s, substr) >= 0]. *)
Definition Contains (s substr : string) : bool :=
  match Index s substr with
  | Some _ => true
  | None => false
  end.

End stringslib.

(** ** The remediation messages of package errors *)

Module messages.

Import stringslib.

(** FormatTemplate represents a generic error message prefix. *)
Definition FormatTemplate : string :=
  "To fix this error, run the following command:" ++ nl ++ nl ++ str TAB ++ "$ %s".

(** AuthRemediation suggests checking the provided --token. *)
Definition AuthRemediation (APIToken : string) : string :=
  fmt.Sprintf
    (Join
    [ "This error may be caused by a missing, incorrect, or expired Fastly API token.";
      "Check that you're supplying a valid token, either via --token,";
      "through the environment variable %s, or through the config file via `fastly profile`.";
      "Verify that the token is still valid via `fastly whoami`." ]
       " ")
    [APIToken].

(** NetworkRemediation suggests, somewhat unhelpfully, to try again later. *)
Definition NetworkRemediation : string :=
  Join
    [ "This error may be caused by transient network issues.";
      "Please verify your network connection and DNS configuration, and try again." ]
    " ".

(** HostRemediation suggests there might be an issue with the local host. *)
Definition HostRemediation : string :=
  Join
    [ "This error may be caused by a problem with your host environment, for example";
      "too-restrictive file permissions, files that already exist, or a full disk." ]
    " ".

(** BugRemediation suggests filing a bug on the GitHub repo. It's good to include as the final suggested remediation in many errors. *)
Definition BugRemediation : string :=
  Join
    [ "If you believe this error is the result of a bug, please file an issue:";
      "https://github.com/fastly/cli/issues/new?labels=bug&template=bug_report.md" ]
    " ".

(** ConfigRemediation informs the user that an error with loading the config isn't a breaking error and the CLI can still be used. *)
Definition ConfigRemediation : string :=
  Join
    [ "There is a fallback version of the configuration provided with the CLI install";
      "(run `fastly config` to view the config) which enables the CLI to continue to be usable even though the config couldn't be updated." ]
    " ".

(** ServiceIDRemediation suggests provide a service ID via --service-id flag or fastly.toml. *)
Definition ServiceIDRemediation : string :=
  Join
    [ "Please provide one via the --service-id or --service-name flag, or by setting the FASTLY_SERVICE_ID environment variable, or within your fastly.toml" ]
    " ".

(** CustomerIDRemediation suggests provide a customer ID via --customer-id flag or via environment variable. *)
Definition CustomerIDRemediation : string :=
  Join
    [ "Please provide one via the --customer-id flag, or by setting the FASTLY_CUSTOMER_ID environment variable" ]
    " ".

(** ExistingDirRemediation suggests moving to another directory and retrying. *)
Definition ExistingDirRemediation : string :=
  Join
    [ "Please create a new directory and initialize a new project using:";
      "`fastly compute init`." ]
    " ".

(** AutoCloneRemediation suggests provide an --autoclone flag. *)
Definition AutoCloneRemediation : string :=
  Join
    [ "Repeat the command with the --autoclone flag to allow the version to be cloned" ]
    " ".

(** IDRemediation suggests an ID via --id flag should be provided. *)
Definition IDRemediation : string :=
  Join
    [ "Please provide one via the --id flag" ]
    " ".

(** PackageSizeRemediation suggests checking the resources documentation for the current package size limit. *)
Definition PackageSizeRemediation : string :=
  Join
    [ "Please check our Compute resource limits:";
      "https://developer.fastly.com/learning/compute/#limitations-and-constraints" ]
    " ".

(** UnrecognisedManifestVersionRemediation suggests steps to resolve an issue where the project contains a manifest_version that is larger than what the current CLI version supports. *)
Definition UnrecognisedManifestVersionRemediation : string :=
  Join
    [ "Please try updating the installed CLI version using: `fastly update`.";
      "See also https://developer.fastly.com/reference/fastly-toml/ to check your fastly.toml manifest is up-to-date with the latest data model.";
      BugRemediation ]
    " ".

(** ComputeInitRemediation suggests re-running compute init to resolve manifest issue. *)
Definition ComputeInitRemediation : string :=
  Join
    [ "Run `fastly compute init` to ensure a correctly configured manifest.";
      "See more at https://developer.fastly.com/reference/fastly-toml/" ]
    " ".

(** ComputeServeRemediation suggests re-running compute serve with one of the incompatible flags removed. *)
Definition ComputeServeRemediation : string :=
  Join
    [ "The --watch flag enables hot reloading of your project to support a faster feedback loop during local development, and subsequently conflicts with the --skip-build flag which avoids rebuilding your project altogether.";
      "Remove one of the flags based on the outcome you require." ]
    " ".

(** ComputeBuildRemediation suggests configuring a [scripts.build] setting in the fastly.toml manifest. *)
Definition ComputeBuildRemediation : string :=
  Join
    [ "Add a [scripts] section with `build = " ++ str DQ ++ "%s" ++ str DQ ++ "`.";
      "See more at https://developer.fastly.com/reference/fastly-toml/" ]
    " ".

(** ComputeTrialRemediation suggests contacting customer manager to enable the free trial feature flag. *)
Definition ComputeTrialRemediation : string :=
  "For more help with this error see fastly.help/cli/ecp-feature".

(** ProfileRemediation suggests no profiles exist. *)
Definition ProfileRemediation : string :=
  "Run `fastly profile create <NAME>` to create a profile, or `fastly profile list` to view available profiles (at least one profile should be set as 'default').".

(** InvalidStaticConfigRemediation indicates an unexpected error occurred when deserialising the CLI's internal configuration. *)
Definition InvalidStaticConfigRemediation : string :=
  Join
    [ "The Fastly CLI attempted to parse an internal configuration file but failed.";
      "Run `fastly update` to upgrade your current CLI version.";
      "If this does not resolve the issue, then please file an issue:";
      "https://github.com/fastly/cli/issues/new?labels=bug&template=bug_report.md" ]
    " ".

(** The messages that hold no placeholder, in the order of the source. *)
Definition fixed_messages : list string :=
  [ NetworkRemediation; HostRemediation; BugRemediation; ConfigRemediation;
    ServiceIDRemediation; CustomerIDRemediation; ExistingDirRemediation;
    AutoCloneRemediation; IDRemediation; PackageSizeRemediation;
    UnrecognisedManifestVersionRemediation; ComputeInitRemediation;
    ComputeServeRemediation; ComputeTrialRemediation; ProfileRemediation;
    InvalidStaticConfigRemediation ].

End messages.

(** ** A RemediationError as an error value *)

Module wrapping.

(** The string a call returned; [Error] of a [RemediationError] always
    returns, see [Error_inner] below. *)
Definition returned (m : exec string) : string :=
  match m with
  | Ret s => s
  | Panic => ""
  end.

(** [RemediationError] has the method [Error() string], so its values are
    [error] values themselves and can be the inner error of another
    [RemediationError]. *)
#[export] Instance RemediationError_error {E : Type} `{error E} :
  error (errors.RemediationError E) :=
  {| errorMessage := fun re => returned (errors.Error re) |}.

End wrapping.

(** ** package testutil *)

Module testutil.

Import stringslib.

Section Assert.

Context {E : Type} `{error E}.

(** A non-nil [error] as the helpers meet it: a [RemediationError] of
    package errors held by value, or a value of any other dynamic type. *)
Inductive errval : Type :=
| Remediated (re : errors.RemediationError E)
| Foreign (e : E).

(** [err.Error()] through the interface. *)
Definition errval_Error (err : iface errval) : exec string :=
  match err with
  | None => Panic
  | Some (Remediated re) => errors.Error re
  | Some (Foreign e) => Ret (errorMessage e)
  end.

(** [re, ok := err.(errors.RemediationError)]: on failure [re] is the zero
    value and [ok] is false, and nothing panics. *)
Definition as_RemediationError (err : iface errval) :
    errors.RemediationError E * bool :=
  match err with
  | Some (Remediated re) => (re, true)
  | Some (Foreign _) | None =>
      ({| errors.Prefix := ""; errors.Inner := None;
          errors.Remediation := "" |}, false)
  end.

(** What a helper hands to [t.Fatal] or [t.Fatalf].  The calls are kept as
    made, format and operands apart; [ODiff want have] is the result of
    [cmp.Diff(want, have)]. *)
Inductive operand : Type :=
| OString (s : string)
| OBool (b : bool)
| OError (err : iface errval)
| ODiff (want have : string).

Inductive fatal : Type :=
| Fatal (args : list operand)
| Fatalf (format : string) (args : list operand).

(** A helper returns with the test still running, or stops it through
    [t.Fatal]/[t.Fatalf]. *)
Inductive outcome : Type :=
| Passed
| Failed (f : fatal).

(** [AssertBool] fatals a test if the parameters aren't equal. *)
Definition AssertBool (want have : bool) : exec outcome :=
  if negb (Bool.eqb want have)
  then Ret (Failed (Fatalf "want %v, have %v" [OBool want; OBool have]))
  else Ret Passed.

(** [AssertString] fatals a test if the parameters aren't equal. *)
Definition AssertString (want have : string) : exec outcome :=
  if negb (String.eqb want have)
  then Ret (Failed (Fatal [ODiff want have]))
  else Ret Passed.

(** [AssertStringContains] fatals a test if the string doesn't contain a
    substring. *)
Definition AssertStringContains (s substr : string) : exec outcome :=
  if negb (Contains s substr)
  then Ret (Failed (Fatalf "%q doesn't contain %q" [OString s; OString substr]))
  else Ret Passed.

(** [AssertNoError] fatals a test if the error is not nil. *)
Definition AssertNoError (err : iface errval) : exec outcome :=
  if negb (is_nil err)
  then Ret (Failed (Fatalf "unexpected error: %v" [OError err]))
  else Ret Passed.

(** [AssertErrorContains] fatals a test if the error's Error string doesn't
    contain target.  The cases of the [switch] are tried in order. *)
Definition AssertErrorContains (err : iface errval) (target : string) :
    exec outcome :=
  if is_nil err && is_empty target then
    Ret Passed
  else if is_nil err && negb (is_empty target) then
    Ret (Failed (Fatalf "want %q, have no error" [OString target]))
  else if negb (is_nil err) && is_empty target then
    Ret (Failed (Fatalf "want no error, have %v" [OError err]))
  else if negb (is_nil err) && negb (is_empty target) then
    have <- errval_Error err ;;
    if negb (Contains have target)
    then Ret (Failed (Fatalf "want %q, have %q" [OString target; OString have]))
    else Ret Passed
  else Ret Passed.

(** [AssertRemediationErrorContains] fatals a test if the error's
    RemediationError remediation string doesn't contain target. *)
Definition AssertRemediationErrorContains (err : iface errval)
    (target : string) : exec outcome :=
  let (re, ok) := as_RemediationError err in
  if is_nil err && is_empty target then
    Ret Passed
  else if is_nil err && negb (is_empty target) then
    Ret (Failed (Fatalf "want %q, have no error" [OString target]))
  else if negb (is_nil err) && negb (is_empty target) && negb ok then
    Ret (Failed (Fatal [OString "have no RemediationError"]))
  else if negb (is_nil err) && negb (is_empty target) then
    let have := errors.Remediation re in
    if negb (Contains have target)
    then Ret (Failed (Fatalf "want %q, have %q" [OString target; OString have]))
    else Ret Passed
  else Ret Passed.

End Assert.

Arguments errval E : clear implicits.
Arguments operand E : clear implicits.
Arguments fatal E : clear implicits.
Arguments outcome E : clear implicits.

End testutil.

(** ** Words for the statements about sequences of calls and about text *)

Module outputs.

(** [sub] occurs in [s]. *)
Definition occurs (sub s : string) : Prop :=
  exists before after, s = before ++ sub ++ after.

(** A printer that adds to the writer and leaves what it holds. *)
Definition appends (pr : text.printer) : Prop :=
  forall (w : io.Writer) (format : string) (args : list string),
    pr w format args = w ++ pr "" format args.

(** [n] copies of [s] in a row. *)
Fixpoint copies (n : nat) (s : string) : string :=
  match n with
  | O => ""
  | S n' => s ++ copies n' s
  end.

(** What one [Print] of [re] writes through the printer [pr]. *)
Definition output {E : Type} `{error E}
    (pr : text.printer) (re : errors.RemediationError E) : string :=
  rendering.prefix_block (errors.Prefix re)
  ++ rendering.inner_write pr (errors.Inner re) ""
  ++ rendering.remediation_block (errors.Remediation re).

(** The number of [Print] calls in a sequence of calls. *)
Fixpoint prints (cs : list errors.call) : nat :=
  match cs with
  | [] => O
  | errors.CallPrint :: cs' => S (prints cs')
  | _ :: cs' => prints cs'
  end.

(** The message of the inner error of [re], empty when there is none. *)
Definition inner_message {E : Type} `{error E}
    (re : errors.RemediationError E) : string :=
  match errors.Inner re with
  | None => ""
  | Some e => errorMessage e
  end.

(** What a call on [re] hands back to its caller. *)
Definition handed_back {E : Type} `{error E}
    (re : errors.RemediationError E) (c : errors.call) : errors.result E :=
  match c with
  | errors.CallUnwrap => errors.Unwrapped (errors.Inner re)
  | errors.CallError => errors.Message (inner_message re)
  | errors.CallPrint => errors.Printed
  end.

End outputs.

(** * Properties *)

(** ** Strings *)

Section StringFacts.

Lemma append_nil_r (s : string) : s ++ "" = s.
Proof. induction s as [|c s IH]; simpl; [reflexivity | now rewrite IH]. Qed.

Lemma append_assoc (s t u : string) : (s ++ t) ++ u = s ++ t ++ u.
Proof. induction s as [|c s IH]; simpl; [reflexivity | now rewrite IH]. Qed.

Lemma append_eq_nil (s t : string) : s ++ t = "" -> s = "" /\ t = "".
Proof. destruct s; simpl; [auto | discriminate]. Qed.

Lemma is_empty_true (s : string) : is_empty s = true <-> s = "".
Proof. destruct s; simpl; split; intros; try reflexivity; discriminate. Qed.

Lemma list_ascii_of_string_app (s t : string) :
  list_ascii_of_string (s ++ t)
  = (list_ascii_of_string s ++ list_ascii_of_string t)%list.
Proof. induction s as [|c s IH]; simpl; [reflexivity | now rewrite IH]. Qed.

Lemma string_of_list_ascii_app (l m : list ascii) :
  string_of_list_ascii (l ++ m)%list
  = string_of_list_ascii l ++ string_of_list_ascii m.
Proof. induction l as [|c l IH]; simpl; [reflexivity | now rewrite IH]. Qed.

(** Induction on a string from its last byte. *)
Lemma string_snoc_ind (P : string -> Prop) :
  P "" -> (forall s c, P s -> P (s ++ str c)) -> forall s, P s.
Proof.
  intros Hnil Hsnoc s.
  rewrite <- (string_of_list_ascii_of_string s).
  induction (list_ascii_of_string s) as [|c l IH] using rev_ind.
  - exact Hnil.
  - rewrite string_of_list_ascii_app. apply Hsnoc, IH.
Qed.

Lemma all_bytes_app (p : ascii -> bool) (s t : string) :
  all_bytes p (s ++ t) = all_bytes p s && all_bytes p t.
Proof.
  induction s as [|c s IH]; simpl; [reflexivity|].
  now rewrite IH, andb_assoc.
Qed.

Lemma last_byte_snoc (s : string) (c : ascii) : last_byte (s ++ str c) = Some c.
Proof.
  induction s as [|d s IH]; simpl; [reflexivity|].
  destruct s; simpl in *; [reflexivity | exact IH].
Qed.

Lemma snoc_inj (s t : string) (c d : ascii) :
  s ++ str c = t ++ str d -> s = t /\ c = d.
Proof.
  revert t; induction s as [|a s IH]; intros [|b t] Heq; simpl in Heq.
  - now inversion Heq.
  - inversion Heq as [[Ha Hs]]. destruct t; discriminate.
  - inversion Heq as [[Ha Hs]]. destruct s; discriminate.
  - inversion Heq as [[Ha Hs]].
    destruct (IH _ Hs) as [-> ->]. now split.
Qed.

End StringFacts.

(** ** strings.TrimRight *)

Section TrimRightFacts.

Import strings rendering.

Variable cutset : string.

Lemma TrimRight_nil : TrimRight "" cutset = "".
Proof. reflexivity. Qed.

(** One turn of the loop, seen from the last byte of the string. *)
Lemma TrimRight_snoc (s : string) (c : ascii) :
  TrimRight (s ++ str c) cutset
  = if contains cutset c then TrimRight s cutset else s ++ str c.
Proof.
  unfold TrimRight.
  rewrite list_ascii_of_string_app, rev_app_distr. simpl.
  destruct (contains cutset c); [reflexivity|].
  change (c :: rev (list_ascii_of_string s))
    with (rev [c] ++ rev (list_ascii_of_string s))%list.
  rewrite <- rev_app_distr, rev_involutive, string_of_list_ascii_app.
  now rewrite string_of_list_ascii_of_string.
Qed.

(** A run of cutset bytes at the end is removed whole. *)
Lemma TrimRight_app_cutset (s u : string) :
  all_bytes (contains cutset) u = true ->
  TrimRight (s ++ u) cutset = TrimRight s cutset.
Proof.
  revert s; induction u as [|u c IH] using string_snoc_ind; intros s Hu.
  - now rewrite append_nil_r.
  - rewrite all_bytes_app in Hu. simpl in Hu.
    apply andb_prop in Hu as [Hu Hc]. rewrite andb_true_r in Hc.
    rewrite <- append_assoc, TrimRight_snoc, Hc. now apply IH.
Qed.

(** A string that ends outside the cutset is left as it is. *)
Lemma TrimRight_keeps (s : string) (c : ascii) :
  contains cutset c = false -> TrimRight (s ++ str c) cutset = s ++ str c.
Proof. intros Hc. now rewrite TrimRight_snoc, Hc. Qed.

(** What [TrimRight] removes is a suffix made of cutset bytes. *)
Lemma TrimRight_split (s : string) :
  exists u, s = TrimRight s cutset ++ u /\ all_bytes (contains cutset) u = true.
Proof.
  induction s as [|s c IH] using string_snoc_ind.
  - exists "". now split.
  - rewrite TrimRight_snoc. destruct (contains cutset c) eqn:Hc.
    + destruct IH as (u & Hs & Hu). exists (u ++ str c). split.
      * now rewrite <- append_assoc, <- Hs.
      * rewrite all_bytes_app, Hu. simpl. now rewrite Hc.
    + exists "". split; [now rewrite append_nil_r | reflexivity].
Qed.

(** What [TrimRight] returns does not end in a cutset byte. *)
Lemma TrimRight_last (s : string) (c : ascii) :
  last_byte (TrimRight s cutset) = Some c -> contains cutset c = false.
Proof.
  induction s as [|s d IH] using string_snoc_ind.
  - discriminate.
  - rewrite TrimRight_snoc. destruct (contains cutset d) eqn:Hd.
    + exact IH.
    + rewrite last_byte_snoc. intros [= ->]. exact Hd.
Qed.

End TrimRightFacts.

(** ** The trimming of line breaks *)

Section LineBreaks.

Import strings rendering.



(** The cutset "\r\n" holds the two line-break bytes and no other. *)
Lemma contains_crnl (c : ascii) : contains crnl c = is_line_break c.
Proof.
  change (contains crnl c) with (Ascii.eqb CR c || (Ascii.eqb LF c || false)).
  unfold is_line_break.
  now rewrite orb_false_r, (Ascii.eqb_sym CR c), (Ascii.eqb_sym LF c).
Qed.

Lemma all_bytes_crnl (u : string) :
  all_bytes (contains crnl) u = all_bytes is_line_break u.
Proof.
  induction u as [|c u IH]; cbn [all_bytes]; [reflexivity|].
  now rewrite IH, contains_crnl.
Qed.

Lemma strip_line_breaks_snoc (s : string) (c : ascii) :
  strip_line_breaks (s ++ str c)
  = if is_line_break c then strip_line_breaks s else s ++ str c.
Proof.
  induction s as [|a s IH].
  - simpl. now destruct (is_line_break c).
  - change (String a s ++ str c) with (String a (s ++ str c)).
    simpl strip_line_breaks at 1. rewrite IH.
    destruct (is_line_break c); [reflexivity|].
    now destruct s.
Qed.

(** The loop of [strings.TrimRight] at the cutset "\r\n" computes the
    trimming of line breaks. *)
Lemma TrimRight_crnl (s : string) : TrimRight s crnl = strip_line_breaks s.
Proof.
  induction s as [|s c IH] using string_snoc_ind.
  - reflexivity.
  - now rewrite TrimRight_snoc, strip_line_breaks_snoc, contains_crnl, IH.
Qed.

Lemma snoc_cases (s : string) : s = "" \/ exists t c, s = t ++ str c.
Proof.
  induction s as [|s c _] using string_snoc_ind; [now left|].
  right. now exists s, c.
Qed.

Lemma stripped_TrimRight (s : string) : stripped s (TrimRight s crnl).
Proof.
  split.
  - destruct (TrimRight_split crnl s) as (u & Hs & Hu).
    exists u. split; [exact Hs | now rewrite <- all_bytes_crnl].
  - intros c Hc. rewrite <- contains_crnl. exact (TrimRight_last crnl s c Hc).
Qed.

(** [stripped] determines its result: it is the one [TrimRight] gives. *)
Lemma stripped_unique (s t : string) : stripped s t -> t = TrimRight s crnl.
Proof.
  intros [(u & -> & Hu) Hlast].
  rewrite TrimRight_app_cutset by now rewrite all_bytes_crnl.
  destruct (snoc_cases t) as [-> | (t' & c & ->)]; [reflexivity|].
  symmetry. apply TrimRight_keeps. rewrite contains_crnl.
  apply Hlast, last_byte_snoc.
Qed.

Lemma strip_line_breaks_stripped (s : string) : stripped s (strip_line_breaks s).
Proof. rewrite <- TrimRight_crnl. apply stripped_TrimRight. Qed.

End LineBreaks.

(** ** fmt.Sprintf *)

Section SprintfFacts.

Import fmt.

Lemma doPrintf_literal (lit : string) :
  literal lit = true -> doPrintf lit [] = lit.
Proof.
  unfold literal. induction lit as [|c lit IH]; simpl; [reflexivity|].
  intros Hl. apply andb_prop in Hl as [Hc Hl].
  apply negb_true_iff in Hc. rewrite Hc. now rewrite IH.
Qed.

Lemma doPrintf_literal_app (lit format : string) (args : list string) :
  literal lit = true ->
  doPrintf (lit ++ format) args = lit ++ doPrintf format args.
Proof.
  unfold literal. induction lit as [|c lit IH]; simpl; [reflexivity|].
  intros Hl. apply andb_prop in Hl as [Hc Hl].
  apply negb_true_iff in Hc. rewrite Hc. now rewrite IH.
Qed.

(** The verb [%s] prints its operand byte for byte, whatever the operand
    holds, and the literal text after it follows. *)
Lemma Sprintf_s (arg lit : string) :
  literal lit = true -> Sprintf ("%s" ++ lit) [arg] = arg ++ lit.
Proof.
  intros Hl. unfold Sprintf. simpl. now rewrite doPrintf_literal.
Qed.

Lemma Sprintf_literal_s (before arg lit : string) :
  literal before = true -> literal lit = true ->
  Sprintf (before ++ "%s" ++ lit) [arg] = before ++ arg ++ lit.
Proof.
  intros Hb Hl. unfold Sprintf.
  rewrite doPrintf_literal_app by exact Hb.
  f_equal. now apply Sprintf_s.
Qed.

(** Text used as the format is interpreted: this is what passing it as an
    operand avoids. *)
Example Sprintf_interprets_format :
  Sprintf "100%s done" [] = "100%!s(MISSING) done"
  /\ Sprintf "50%" [] = "50%!(NOVERB)"
  /\ Sprintf "%d" ["x"] = "%!d(string=x)".
Proof. repeat split. Qed.

(** The formats of this package are inside the modelled fragment. *)
Example formats_plain :
  plain ("%s" ++ nl ++ nl) = true
  /\ plain ("Error: " ++ "%s." ++ nl ++ nl) = true
  /\ plain ("%s" ++ nl) = true.
Proof. repeat split. Qed.

End SprintfFacts.


(** ** Print, block by block *)

Section PrintFacts.

Import strings fmt errors rendering.

Context {E : Type} `{error E}.

Variable pr : text.printer.

Lemma Fprintf_s (w : io.Writer) (arg lit : string) :
  literal lit = true -> Fprintf w ("%s" ++ lit) [arg] = w ++ arg ++ lit.
Proof.
  intros Hl. unfold Fprintf, io.Write. now rewrite Sprintf_s.
Qed.

Lemma text_Error_s (w : io.Writer) (arg lit : string) :
  literal lit = true ->
  text.Error w ("%s" ++ lit) [arg] = w ++ "Error: " ++ arg ++ lit.
Proof.
  intros Hl. unfold text.Error, Fprintf, io.Write.
  now rewrite Sprintf_literal_s.
Qed.

Lemma Print_prefix_step (p : string) (w : io.Writer) :
  (if negb (is_empty p)
   then Ret (Fprintf w ("%s" ++ nl ++ nl) [TrimRight p crnl])
   else Ret w)
  = Ret (w ++ prefix_block p).
Proof.
  unfold prefix_block. destruct (is_empty p); cbn [negb].
  - now rewrite append_nil_r.
  - now rewrite Fprintf_s, TrimRight_crnl.
Qed.

Lemma Print_inner_step (i : iface E) (w : io.Writer) :
  (if negb (is_nil i)
   then m <- call_Error i ;; Ret (pr w ("%s." ++ nl ++ nl) [m])
   else Ret w)
  = Ret (inner_write pr i w).
Proof. now destruct i. Qed.

Lemma Print_remediation_step (r : string) (w : io.Writer) :
  (if negb (is_empty r)
   then Ret (Fprintf w ("%s" ++ nl) [TrimRight r crnl])
   else Ret w)
  = Ret (w ++ remediation_block r).
Proof.
  unfold remediation_block. destruct (is_empty r); cbn [negb].
  - now rewrite append_nil_r.
  - now rewrite Fprintf_s, TrimRight_crnl.
Qed.

(** [Print], whatever the printer of the inner error is: the prefix block
    is appended to what the writer holds, the printer is run on the
    result, and the remediation block is appended to what it leaves. *)
Lemma Print_steps (re : RemediationError E) (w : io.Writer) :
  Print pr re w
  = Ret (inner_write pr (Inner re) (w ++ prefix_block (Prefix re))
           ++ remediation_block (Remediation re)).
Proof.
  unfold Print.
  rewrite Print_prefix_step. cbn [bind].
  rewrite Print_inner_step. cbn [bind].
  rewrite Print_remediation_step. reflexivity.
Qed.

(** With [text.Error] as the spec has it, the inner error is one more
    block appended. *)
Lemma inner_write_text_Error (i : iface E) (w : io.Writer) :
  inner_write text.Error i w = w ++ inner_block i.
Proof.
  destruct i as [e|]; cbn [inner_write inner_block].
  - change ("%s." ++ nl ++ nl) with ("%s" ++ "." ++ nl ++ nl).
    now rewrite text_Error_s.
  - now rewrite append_nil_r.
Qed.

Lemma Error_inner (re : RemediationError E) :
  Error re = Ret (match Inner re with
                  | None => ""
                  | Some e => errorMessage e
                  end).
Proof. unfold Error. now destruct (Inner re). Qed.

Lemma prefix_block_nil (p : string) : prefix_block p = "" <-> p = "".
Proof.
  unfold prefix_block. destruct p as [|c p]; cbn [is_empty]; [tauto|].
  split; [|discriminate].
  intros Hb. apply append_eq_nil in Hb as [_ Hb]. discriminate.
Qed.

Lemma inner_block_nil (i : iface E) : inner_block i = "" <-> i = None.
Proof. destruct i; simpl; split; intros; try reflexivity; discriminate. Qed.

Lemma remediation_block_nil (r : string) : remediation_block r = "" <-> r = "".
Proof.
  unfold remediation_block. destruct r as [|c r]; cbn [is_empty]; [tauto|].
  split; [|discriminate].
  intros Hb. apply append_eq_nil in Hb as [_ Hb]. discriminate.
Qed.


End PrintFacts.

(** [Print] with the [text.Error] of the spec appends the three blocks. *)
Lemma Print_render {E : Type} `{error E}
    (re : errors.RemediationError E) (w : io.Writer) :
  errors.Print text.Error re w = Ret (w ++ rendering.render re).
Proof.
  rewrite Print_steps, inner_write_text_Error.
  unfold rendering.render. now rewrite !append_assoc.
Qed.

(** A byte that is not a line break shields all that precedes it from the
    trimming. *)
Lemma strip_line_breaks_keep (a rest : string) (c : ascii) :
  rendering.is_line_break c = false ->
  rendering.strip_line_breaks (a ++ String c rest)
  = a ++ String c (rendering.strip_line_breaks rest).
Proof.
  intros Hc.
  assert (Hhead : rendering.strip_line_breaks (String c rest)
                  = String c (rendering.strip_line_breaks rest)).
  { cbn [rendering.strip_line_breaks]. rewrite Hc.
    now destruct (rendering.strip_line_breaks rest). }
  induction a as [|x a IH]; [exact Hhead|].
  change (String x a ++ String c rest) with (String x (a ++ String c rest)).
  cbn [rendering.strip_line_breaks]. rewrite IH.
  now destruct a.
Qed.

(** * The methods of RemediationError *)

Section Methods.

Import strings fmt errors rendering goerrors.

(** ** Error *)

(** C1. For every RemediationError, [Error()] returns the empty string when
    the inner error is nil, and otherwise returns exactly the message of the
    inner error: whatever the prefix and the remediation are, neither they
    nor any punctuation is added to it. *)
Theorem Error_is_inner_message :
  forall (E : Type) (HE : error E) (p r : string),
    Error {| Prefix := p; Inner := @None E; Remediation := r |} = Ret ""
    /\ forall e : E,
         Error {| Prefix := p; Inner := Some e; Remediation := r |}
         = Ret (errorMessage e).
Proof.
  intros E HE p r. split; [|intros e]; now rewrite Error_inner.
Qed.

(** ** Unwrap *)

(** C2. For every error value, nil included, a RemediationError built with
    that value as its inner error gives back that very value from
    [Unwrap()]: the equality is on the error values, not on their
    messages, so that wrapping two different values never unwraps to the
    same one. *)
Theorem Unwrap_is_inner :
  forall (E : Type) (p r : string) (inner : iface E),
    Unwrap {| Prefix := p; Inner := inner; Remediation := r |} = Ret inner
    /\ forall inner' : iface E,
         Unwrap {| Prefix := p; Inner := inner'; Remediation := r |}
         = Unwrap {| Prefix := p; Inner := inner; Remediation := r |} ->
         inner' = inner.
Proof.
  intros E p r inner. split.
  - reflexivity.
  - intros inner' Heq. unfold Unwrap in Heq. cbn [Inner] in Heq.
    now injection Heq.
Qed.

(** Two errors with one message are two values, and [Unwrap] tells them
    apart. *)
Example Unwrap_keeps_identity :
  let a := New 1 "boom" in
  let b := New 2 "boom" in
  errorMessage a = errorMessage b
  /\ Unwrap {| Prefix := ""; Inner := Some a; Remediation := "" |}
     <> Unwrap {| Prefix := ""; Inner := Some b; Remediation := "" |}.
Proof. split; [reflexivity | discriminate]. Qed.

(** ** Print *)

(** C3. With a non-nil inner error, the block [Print] writes for it is
    exactly "Error: <message>.\n\n": the period and the blank line are
    added whatever the message ends in.  With an empty prefix, the inner
    message "token invalid" and the remediation "Run X" the whole output
    is "Error: token invalid.\n\nRun X\n".  The block is written by
    [text.Error], taken here as the spec describes it. *)
Theorem Print_inner_block :
  forall (E : Type) (HE : error E),
    (forall (p r : string) (e : E) (w : io.Writer),
        Print text.Error {| Prefix := p; Inner := Some e; Remediation := r |} w
        = Ret (w ++ prefix_block p
                 ++ ("Error: " ++ errorMessage e ++ "." ++ nl ++ nl)
                 ++ remediation_block r))
    /\ Print text.Error
         {| Prefix := ""; Inner := Some (New 1 "token invalid");
            Remediation := "Run X" |} ""
       = Ret ("Error: token invalid." ++ nl ++ nl ++ "Run X" ++ nl)
    /\ Print text.Error
         {| Prefix := ""; Inner := Some (New 1 "token invalid.");
            Remediation := "" |} ""
       = Ret ("Error: token invalid.." ++ nl ++ nl).
Proof.
  intros E HE. split; [|split].
  - intros p r e w. now rewrite Print_render.
  - reflexivity.
  - reflexivity.
Qed.

(** C4. [Print] emits its blocks in the order prefix, inner error,
    remediation.  A block is emitted exactly when its field is non-empty
    (non-nil for the inner error), and with the three fields empty or nil
    nothing is written.  The order of the three writes and the test on
    each field hold for any [text.Error]; that the inner block is a
    non-empty text appended after the prefix block is read from the
    [text.Error] of the spec. *)
Theorem Print_blocks_in_order :
  forall (E : Type) (HE : error E) (pr : text.printer)
         (re : RemediationError E) (w : io.Writer),
    Print pr re w
    = Ret (inner_write pr (Inner re) (w ++ prefix_block (Prefix re))
             ++ remediation_block (Remediation re))
    /\ Print text.Error re w
       = Ret (w ++ prefix_block (Prefix re)
                ++ inner_block (Inner re)
                ++ remediation_block (Remediation re))
    /\ (prefix_block (Prefix re) = "" <-> Prefix re = "")
    /\ (inner_block (Inner re) = "" <-> Inner re = None)
    /\ (remediation_block (Remediation re) = "" <-> Remediation re = "")
    /\ Print pr {| Prefix := ""; Inner := @None E; Remediation := "" |} ""
       = Ret "".
Proof.
  intros E HE pr re w.
  split; [apply Print_steps|].
  split; [apply Print_render|].
  split; [apply prefix_block_nil|].
  split; [apply inner_block_nil|].
  split; [apply remediation_block_nil|].
  reflexivity.
Qed.

(** C5. [Print] strips the trailing newline and carriage-return bytes of
    the prefix and of the remediation and then adds its own line breaks: a
    blank line after the trimmed prefix, one line break after the trimmed
    remediation.  With the prefix "Custom context", a nil inner error and
    an empty remediation the output is "Custom context\n\n". *)
Theorem Print_strips_trailing_line_breaks :
  forall (E : Type) (HE : error E) (pr : text.printer),
    (forall (re : RemediationError E) (w : io.Writer),
        exists p r : string,
          stripped (Prefix re) p
          /\ stripped (Remediation re) r
          /\ Print pr re w
             = Ret (inner_write pr (Inner re)
                      (w ++ (if is_empty (Prefix re) then "" else p ++ nl ++ nl))
                      ++ (if is_empty (Remediation re) then "" else r ++ nl)))
    /\ Print pr {| Prefix := "Custom context"; Inner := @None E;
                   Remediation := "" |} ""
       = Ret ("Custom context" ++ nl ++ nl)
    /\ Print pr {| Prefix := "text" ++ crnl ++ crnl; Inner := @None E;
                   Remediation := "text" ++ crnl ++ crnl |} ""
       = Ret ("text" ++ nl ++ nl ++ "text" ++ nl).
Proof.
  intros E HE pr. split; [|split].
  - intros re w.
    exists (strip_line_breaks (Prefix re)), (strip_line_breaks (Remediation re)).
    split; [apply strip_line_breaks_stripped|].
    split; [apply strip_line_breaks_stripped|].
    apply Print_steps.
  - reflexivity.
  - reflexivity.
Qed.

End Methods.

(** ** Totality, determinism and frame *)

Section Behaviour.

Import strings fmt errors rendering goerrors.








End Behaviour.

(** * Further properties of the package *)

(** ** Line breaks at the end of a field *)

Section TrailingLineBreaks.

Import strings fmt errors rendering goerrors.

Context {E : Type} `{error E}.

Variable pr : text.printer.






End TrailingLineBreaks.

Section TrailingLineBreaksAt.

Import goerrors.



End TrailingLineBreaksAt.

(** ** Sequences of calls *)

Section Sequences.

Import strings fmt errors rendering outputs.

Context {E : Type} `{error E}.

Variable pr : text.printer.

Hypothesis pr_appends : appends pr.

Lemma inner_write_appends (i : iface E) (w : io.Writer) :
  inner_write pr i w = w ++ inner_write pr i "".
Proof.
  destruct i as [e|]; cbn [inner_write].
  - apply pr_appends.
  - now rewrite append_nil_r.
Qed.

Lemma Print_output (re : RemediationError E) (w : io.Writer) :
  Print pr re w = Ret (w ++ output pr re).
Proof.
  rewrite Print_steps, inner_write_appends. unfold output.
  now rewrite !append_assoc.
Qed.

Lemma invoke_effect (c : call) (st : world E) :
  invoke pr c st
  = Ret {| stored := stored st;
           sink := sink st ++ copies (prints [c]) (output pr (stored st));
           results := (results st ++ [handed_back (stored st) c])%list |}.
Proof.
  destruct c; unfold invoke; cbn [prints copies handed_back].
  - unfold Unwrap. cbn [bind]. now rewrite append_nil_r.
  - rewrite Error_inner. cbn [bind]. now rewrite append_nil_r.
  - rewrite Print_output. cbn [bind]. now rewrite append_nil_r.
Qed.

End Sequences.

(** After any sequence of calls on a stored RemediationError, with a
    printer of the inner error that only adds to the writer: the writer
    holds what it held, followed by one copy of the same rendering for each
    [Print] in the sequence, so that [Unwrap] and [Error] write nothing and
    a second [Print] repeats the first; each call handed back the inner
    error or its message as they were at the start. *)
Theorem run_effect :
  forall (E : Type) (HE : error E) (pr : text.printer),
    outputs.appends pr ->
    forall (cs : list errors.call) (st : errors.world E),
      errors.run pr cs st
      = Ret {| errors.stored := errors.stored st;
               errors.sink :=
                 errors.sink st
                 ++ outputs.copies (outputs.prints cs)
                      (outputs.output pr (errors.stored st));
               errors.results :=
                 (errors.results st
                  ++ map (outputs.handed_back (errors.stored st)) cs)%list |}.
Proof.
  intros E HE pr Happ cs.
  induction cs as [|c cs IH]; intros st.
  - cbn [errors.run outputs.prints outputs.copies map].
    rewrite append_nil_r, app_nil_r. now destruct st.
  - cbn [errors.run]. rewrite (invoke_effect pr Happ). cbn [bind].
    rewrite IH. cbn [errors.stored errors.sink errors.results map].
    f_equal. f_equal.
    + rewrite append_assoc. f_equal.
      destruct c; cbn [outputs.prints outputs.copies];
        now rewrite ?append_nil_r.
    + now rewrite <- app_assoc.
Qed.

Section SequencesAt.

Import errors goerrors outputs.

Lemma run_effect_witness :
  let re := {| Prefix := "Context"; Inner := Some (New 1 "boom");
               Remediation := "Retry" |} in
  let st := {| stored := re; sink := "kept|"; results := [] |} in
  appends text.Error
  /\ run text.Error [CallPrint; CallError; CallUnwrap; CallPrint] st
     = Ret {| stored := re;
              sink := "kept|"
                      ++ copies 2 ("Context" ++ nl ++ nl ++ "Error: boom."
                                   ++ nl ++ nl ++ "Retry" ++ nl);
              results := [Printed; Message "boom";
                          Unwrapped (Some (New 1 "boom")); Printed] |}.
Proof.
  intros re st.
  assert (Happ : appends text.Error) by (intros w f a; reflexivity).
  split; [exact Happ|].
  exact (run_effect errorString _ text.Error Happ
           [CallPrint; CallError; CallUnwrap; CallPrint] st).
Defined.

End SequencesAt.

(** ** A RemediationError inside a RemediationError *)

Section Wrapping.

Import strings fmt errors rendering outputs wrapping.

(** Wrapping a RemediationError in another keeps its [Error()] text, and
    that text is all the outer [Print] shows of it: the prefix and the
    remediation of the wrapped value are not written, and a wrapped value
    without inner error is printed with an empty message. *)
Theorem Print_of_wrapped :
  forall (E : Type) (HE : error E) (pr : text.printer)
         (p1 r1 p2 r2 : string) (i : iface E) (w : io.Writer),
    let wrapped := {| Prefix := p1; Inner := i; Remediation := r1 |} in
    let outer := {| Prefix := p2; Inner := Some wrapped; Remediation := r2 |} in
    Error outer = Error wrapped
    /\ Error wrapped = Ret (inner_message wrapped)
    /\ Print pr outer w
       = Ret (pr (w ++ prefix_block p2) ("%s." ++ nl ++ nl)
                [inner_message wrapped]
              ++ remediation_block r2).
Proof.
  intros E HE pr p1 r1 p2 r2 i w wrapped outer.
  assert (Hw : Error wrapped = Ret (inner_message wrapped))
    by apply Error_inner.
  assert (Hm : errorMessage wrapped = inner_message wrapped).
  { cbn [errorMessage RemediationError_error]. now rewrite Hw. }
  split; [|split].
  - rewrite (Error_inner outer). cbn [Inner outer]. now rewrite Hm, Hw.
  - exact Hw.
  - rewrite Print_steps. cbn [Prefix Inner Remediation outer inner_write].
    now rewrite Hm.
Qed.

End Wrapping.

(** ** The remediation messages *)

Section Messages.

Import strings fmt errors rendering stringslib messages goerrors.

Lemma remediation_block_keeps (s : string) (b : ascii) :
  is_line_break b = false -> remediation_block (s ++ str b) = (s ++ str b) ++ nl.
Proof.
  intros Hb. unfold remediation_block.
  rewrite strip_line_breaks_snoc, Hb. now destruct s.
Qed.

Lemma Sprintf_FormatTemplate (command : string) :
  Sprintf FormatTemplate [command]
  = "To fix this error, run the following command:" ++ nl ++ nl
    ++ str TAB ++ "$ " ++ command.
Proof.
  change FormatTemplate
    with (("To fix this error, run the following command:" ++ nl ++ nl
           ++ str TAB ++ "$ ") ++ "%s" ++ "").
  rewrite Sprintf_literal_s by reflexivity.
  now rewrite append_nil_r, !append_assoc.
Qed.

(** A remediation made from [FormatTemplate] and a command is printed as
    the template text, blank line and tab included, followed by the
    command without its trailing line breaks and one line break; with an
    empty command the template text stays, its last space included. *)
Theorem Print_FormatTemplate :
  forall (E : Type) (HE : error E) (pr : text.printer)
         (p command : string) (inner : iface E) (w : io.Writer),
    Print pr {| Prefix := p; Inner := inner;
                Remediation := Sprintf FormatTemplate [command] |} w
    = Ret (inner_write pr inner (w ++ prefix_block p)
           ++ ("To fix this error, run the following command:" ++ nl ++ nl
               ++ str TAB ++ "$ " ++ strip_line_breaks command)
           ++ nl).
Proof.
  intros E HE pr p command inner w.
  rewrite Print_steps, Sprintf_FormatTemplate.
  cbn [Prefix Inner Remediation]. do 2 f_equal.
  unfold remediation_block.
  change ("To fix this error, run the following command:" ++ nl ++ nl
          ++ str TAB ++ "$ " ++ command)
    with (("To fix this error, run the following command:" ++ nl ++ nl
           ++ str TAB ++ "$") ++ String SP command).
  rewrite strip_line_breaks_keep by reflexivity.
  cbn [is_empty append]. now rewrite !append_assoc.
Qed.

(** [ComputeBuildRemediation] holds one placeholder, between double
    quotes.  Filled with a build command, whatever bytes the command holds,
    it is the two halves of the message around the command, and [Print]
    writes it whole, followed by one line break. *)
Theorem Print_ComputeBuildRemediation :
  forall (E : Type) (HE : error E) (pr : text.printer)
         (p command : string) (inner : iface E) (w : io.Writer),
    let filled :=
      "Add a [scripts] section with `build = " ++ str DQ ++ command ++ str DQ
      ++ "`. See more at https://developer.fastly.com/reference/fastly-toml/" in
    Sprintf ComputeBuildRemediation [command] = filled
    /\ Print pr {| Prefix := p; Inner := inner;
                   Remediation := Sprintf ComputeBuildRemediation [command] |} w
       = Ret (inner_write pr inner (w ++ prefix_block p) ++ filled ++ nl).
Proof.
  intros E HE pr p command inner w filled.
  assert (Hs : Sprintf ComputeBuildRemediation [command] = filled).
  { change ComputeBuildRemediation
      with (("Add a [scripts] section with `build = " ++ str DQ) ++ "%s"
            ++ (str DQ ++ "`. See more at https://developer.fastly.com/reference/fastly-toml/")).
    rewrite Sprintf_literal_s by reflexivity.
    unfold filled. now rewrite !append_assoc. }
  split; [exact Hs|].
  rewrite Print_steps, Hs. cbn [Prefix Inner Remediation]. do 2 f_equal.
  assert (Hf : filled
               = ("Add a [scripts] section with `build = " ++ str DQ ++ command
                  ++ str DQ
                  ++ "`. See more at https://developer.fastly.com/reference/fastly-toml")
                 ++ str "/"%char).
  { unfold filled. now rewrite !append_assoc. }
  rewrite Hf. now apply remediation_block_keeps.
Qed.

(** [AuthRemediation] is built with the name of the token variable of
    package env as its one operand: for any such name it is the four
    sentences with the name in the third, and [Print] writes it whole,
    followed by one line break. *)
Theorem Print_AuthRemediation :
  forall (E : Type) (HE : error E) (pr : text.printer)
         (p APIToken : string) (inner : iface E) (w : io.Writer),
    let message :=
      "This error may be caused by a missing, incorrect, or expired Fastly API token. Check that you're supplying a valid token, either via --token, through the environment variable "
      ++ APIToken
      ++ ", or through the config file via `fastly profile`. Verify that the token is still valid via `fastly whoami`." in
    AuthRemediation APIToken = message
    /\ Print pr {| Prefix := p; Inner := inner;
                   Remediation := AuthRemediation APIToken |} w
       = Ret (inner_write pr inner (w ++ prefix_block p) ++ message ++ nl).
Proof.
  intros E HE pr p APIToken inner w message.
  assert (Hs : AuthRemediation APIToken = message).
  { unfold AuthRemediation.
    change (Join _ " ")
      with ("This error may be caused by a missing, incorrect, or expired Fastly API token. Check that you're supplying a valid token, either via --token, through the environment variable "
            ++ "%s"
            ++ ", or through the config file via `fastly profile`. Verify that the token is still valid via `fastly whoami`.").
    now rewrite Sprintf_literal_s by reflexivity. }
  split; [exact Hs|].
  rewrite Print_steps, Hs. cbn [Prefix Inner Remediation]. do 2 f_equal.
  assert (Hf : message
               = ("This error may be caused by a missing, incorrect, or expired Fastly API token. Check that you're supplying a valid token, either via --token, through the environment variable "
                  ++ APIToken
                  ++ ", or through the config file via `fastly profile`. Verify that the token is still valid via `fastly whoami`")
                 ++ str "."%char).
  { unfold message. now rewrite !append_assoc. }
  rewrite Hf. now apply remediation_block_keeps.
Qed.

(** Each message without a placeholder is non-empty, ends in no line break
    and holds no [%]: [Print] writes it as it is, followed by one line
    break, and as a format without operands it renders as itself. *)
Theorem Print_fixed_message :
  forall (E : Type) (HE : error E) (pr : text.printer) (m : string),
    In m fixed_messages ->
    forall (p : string) (inner : iface E) (w : io.Writer),
      Print pr {| Prefix := p; Inner := inner; Remediation := m |} w
      = Ret (inner_write pr inner (w ++ prefix_block p) ++ m ++ nl)
      /\ Sprintf m [] = m.
Proof.
  intros E HE pr m Hin p inner w.
  assert (Hall : forallb (fun x => negb (is_empty x)
                                   && String.eqb (strip_line_breaks x) x
                                   && literal x) fixed_messages = true)
    by (vm_compute; reflexivity).
  rewrite forallb_forall in Hall. specialize (Hall m Hin).
  apply andb_prop in Hall as [Hall Hlit].
  apply andb_prop in Hall as [Hne Hstrip].
  apply negb_true_iff in Hne. apply String.eqb_eq in Hstrip.
  split.
  - rewrite Print_steps. cbn [Prefix Inner Remediation].
    unfold remediation_block. now rewrite Hne, Hstrip.
  - unfold Sprintf. now apply doPrintf_literal.
Qed.

Lemma Print_fixed_message_witness :
  In BugRemediation fixed_messages
  /\ Print text.Error
       {| Prefix := ""; Inner := @None goerrors.errorString;
          Remediation := BugRemediation |} ""
     = Ret (inner_write text.Error (@None goerrors.errorString)
              ("" ++ prefix_block "") ++ BugRemediation ++ nl)
  /\ Sprintf BugRemediation [] = BugRemediation.
Proof.
  assert (Hin : In BugRemediation fixed_messages)
    by (simpl; right; right; left; reflexivity).
  split; [exact Hin|].
  exact (Print_fixed_message goerrors.errorString goerrors.errorString_error
           text.Error BugRemediation Hin "" None "").
Defined.

End Messages.

(** ** strings.Contains *)

Section ContainsFacts.

Import stringslib outputs.

Lemma HasPrefix_spec (s p : string) :
  HasPrefix s p = true <-> exists after, s = p ++ after.
Proof.
  revert s; induction p as [|x p IH]; intros s.
  - split; [intros _; now exists s | intros _; now destruct s].
  - destruct s as [|c s]; cbn [HasPrefix].
    + split; [discriminate | intros (after & Heq); discriminate].
    + rewrite andb_true_iff, Ascii.eqb_eq, IH. split.
      * intros (-> & after & ->). now exists after.
      * intros (after & Heq). injection Heq as -> ->. split; [reflexivity|].
        now exists after.
Qed.

Lemma Index_cons (c : ascii) (s substr : string) :
  Index (String c s) substr
  = if HasPrefix (String c s) substr then Some 0
    else match Index s substr with
         | Some i => Some (S i)
         | None => None
         end.
Proof. reflexivity. Qed.

(** [Contains] holds exactly of the strings that have [substr] inside
    them; the empty string is inside every string. *)
Lemma Contains_occurs (s substr : string) :
  Contains s substr = true <-> occurs substr s.
Proof.
  unfold Contains, occurs. induction s as [|c s IH].
  - cbn [Index]. destruct (HasPrefix "" substr) eqn:Hp.
    + apply HasPrefix_spec in Hp as (after & Heq).
      split; [intros _ | reflexivity]. now exists "", after.
    + split; [discriminate|]. intros (before & after & Heq).
      symmetry in Heq. apply append_eq_nil in Heq as [-> Heq].
      apply append_eq_nil in Heq as [-> ->]. discriminate.
  - rewrite Index_cons. destruct (HasPrefix (String c s) substr) eqn:Hp.
    + apply HasPrefix_spec in Hp as (after & Heq).
      split; [intros _ | reflexivity]. now exists "", after.
    + destruct (Index s substr) as [i|].
      * split; [intros _ | reflexivity].
        destruct IH as [IH _]. destruct (IH eq_refl) as (before & after & ->).
        now exists (String c before), after.
      * split; [discriminate|]. intros (before & after & Heq).
        destruct before as [|b before].
        -- assert (Hp' : HasPrefix (String c s) substr = true)
             by (apply HasPrefix_spec; now exists after).
           congruence.
        -- injection Heq as -> ->.
           destruct IH as [_ IH]. discriminate IH. now exists before, after.
Qed.

End ContainsFacts.

(** ** The assertion helpers *)

Section Helpers.

Import stringslib outputs errors testutil.

Context {E : Type} `{error E}.

Lemma errval_Error_some (v : errval E) :
  errval_Error (Some v)
  = Ret (match v with
         | Remediated re => inner_message re
         | Foreign e => errorMessage e
         end).
Proof. destruct v as [re|e]; [apply Error_inner | reflexivity]. Qed.

Lemma is_empty_false (s : string) : is_empty s = false <-> s <> "".
Proof. destruct s; simpl; split; congruence. Qed.

(** [AssertStringContains] lets the test go on exactly when [substr]
    occurs in [s]; with an empty [substr] it never stops it. *)
Theorem AssertStringContains_passes (s substr : string) :
  (AssertStringContains (E:=E) s substr = Ret Passed <-> occurs substr s)
  /\ AssertStringContains (E:=E) s "" = Ret Passed.
Proof.
  assert (Hiff : forall t, AssertStringContains (E:=E) s t = Ret Passed
                           <-> occurs t s).
  { intros t. rewrite <- Contains_occurs. unfold AssertStringContains.
    destruct (Contains s t); cbn [negb]; split; intros Heq;
      try reflexivity; discriminate. }
  split; [apply Hiff|].
  apply Hiff. now exists "", s.
Qed.

(** [AssertErrorContains] returns for every error and target, and lets the
    test go on in two cases only: no error with an empty target, or an
    error whose [Error()] text has the non-empty target inside it. *)
Theorem AssertErrorContains_passes (err : iface (errval E)) (target : string) :
  returns (AssertErrorContains err target)
  /\ (AssertErrorContains err target = Ret Passed
      <-> (err = None /\ target = "")
          \/ (target <> ""
              /\ exists m, errval_Error err = Ret m /\ occurs target m)).
Proof.
  unfold AssertErrorContains, returns.
  destruct err as [v|]; destruct target as [|c t];
    cbn [is_nil is_empty negb andb].
  - split; [eexists; reflexivity|]. split; [discriminate|].
    intros [[Hn _] | [Ht _]]; [discriminate | congruence].
  - rewrite errval_Error_some. cbn [bind].
    set (m := match v with
              | Remediated re => inner_message re
              | Foreign e => errorMessage e
              end).
    destruct (Contains m (String c t)) eqn:Hc; cbn [negb].
    + split; [eexists; reflexivity|]. split; [intros _ | reflexivity].
      right. split; [discriminate|]. exists m. split; [reflexivity|].
      now apply Contains_occurs.
    + split; [eexists; reflexivity|]. split; [discriminate|].
      intros [[Hn _] | [_ (m' & Hm & Hocc)]]; [discriminate|].
      injection Hm as <-. apply Contains_occurs in Hocc. congruence.
  - split; [eexists; reflexivity|]. split; [intros _ | reflexivity].
    now left.
  - split; [eexists; reflexivity|]. split; [discriminate|].
    intros [[_ Ht] | [_ (m & Hm & _)]]; discriminate.
Qed.

(** On a RemediationError, [AssertErrorContains] looks at the message of
    the inner error and at nothing else: it lets the test go on exactly
    when the target is non-empty and occurs in that message, so never for
    a RemediationError without inner error, whatever its prefix and
    remediation hold. *)
Theorem AssertErrorContains_RemediationError
    (p r target : string) (inner : iface E) :
  AssertErrorContains
    (Some (Remediated {| Prefix := p; Inner := inner; Remediation := r |}))
    target = Ret Passed
  <-> target <> "" /\ exists e, inner = Some e /\ occurs target (errorMessage e).
Proof.
  rewrite (proj2 (AssertErrorContains_passes _ _)).
  rewrite errval_Error_some. unfold inner_message. cbn [Inner].
  split.
  - intros [[Hn _] | [Ht (m & Hm & Hocc)]]; [discriminate|].
    split; [exact Ht|]. injection Hm as <-.
    destruct inner as [e|]; [now exists e|].
    destruct Hocc as (before & after & Heq).
    symmetry in Heq. apply append_eq_nil in Heq as [_ Heq].
    apply append_eq_nil in Heq as [Heq _]. contradiction.
  - intros (Ht & e & -> & Hocc). right. split; [exact Ht|].
    now exists (errorMessage e).
Qed.

End Helpers.

Section RemediationHelpers.

Import stringslib outputs errors testutil.

Context {E : Type} `{error E}.

(** With a non-empty target, [AssertRemediationErrorContains] lets the
    test go on exactly when the error is a RemediationError whose
    remediation has the target inside it: a nil error, an error of another
    type and a remediation without the target all stop the test, and the
    message of the error plays no part. *)
Theorem AssertRemediationErrorContains_passes
    (err : iface (errval E)) (target : string) :
  target <> "" ->
  (AssertRemediationErrorContains err target = Ret Passed
   <-> exists re, err = Some (Remediated re) /\ occurs target (Remediation re)).
Proof.
  intros Ht. apply is_empty_false in Ht.
  unfold AssertRemediationErrorContains.
  destruct err as [[re|e]|]; cbn [as_RemediationError is_nil negb andb];
    rewrite Ht; cbn [negb andb].
  - destruct (Contains (Remediation re) target) eqn:Hc; cbn [negb].
    + split; [intros _ | reflexivity]. exists re. split; [reflexivity|].
      now apply Contains_occurs.
    + split; [discriminate|]. intros (re' & Heq & Hocc).
      injection Heq as <-. apply Contains_occurs in Hocc. congruence.
  - split; [discriminate|]. intros (re & Heq & _). discriminate.
  - split; [discriminate|]. intros (re & Heq & _). discriminate.
Qed.

(** With an empty target, [AssertRemediationErrorContains] lets the test go
    on for every error, a non-nil one included: no case of its switch
    takes a non-nil error with an empty target.  [AssertErrorContains]
    stops the test there, and goes on only when the error is nil. *)
Theorem AssertRemediationErrorContains_empty_target (err : iface (errval E)) :
  AssertRemediationErrorContains err "" = Ret Passed
  /\ (AssertErrorContains err "" = Ret Passed <-> err = None).
Proof.
  split.
  - unfold AssertRemediationErrorContains.
    now destruct err as [[re|e]|].
  - destruct err as [v|]; cbn; split; intros Heq;
      try reflexivity; discriminate.
Qed.

(** [AssertNoError] and [AssertErrorContains] with an empty target agree on
    every error: both let the test go on exactly when the error is nil. *)
Theorem AssertNoError_passes (err : iface (errval E)) :
  (AssertNoError err = Ret Passed <-> err = None)
  /\ (AssertNoError err = Ret Passed
      <-> AssertErrorContains err "" = Ret Passed).
Proof.
  destruct err as [v|]; cbn; repeat split; intros Heq;
    try reflexivity; discriminate.
Qed.

End RemediationHelpers.

Section RemediationHelpersAt.

Import stringslib outputs errors testutil goerrors.

(** An error whose message is "boom" and whose remediation is "try again",
    asked for "again". *)
Lemma AssertRemediationErrorContains_passes_witness :
  let re := {| Prefix := ""; Inner := Some (New 1 "boom");
               Remediation := "try again" |} in
  "again" <> ""
  /\ (AssertRemediationErrorContains (Some (Remediated re)) "again" = Ret Passed
      <-> exists re', Some (Remediated re) = Some (Remediated re')
                      /\ occurs "again" (Remediation re')).
Proof.
  intros re. split; [discriminate|].
  apply (AssertRemediationErrorContains_passes (Some (Remediated re)) "again").
  discriminate.
Defined.

End RemediationHelpersAt.
